(** * Raytracer: a shallow embedding of [src/lib.rs] and [src/bin/main.rs]

    Scalars ([f32]) are modelled as exact real numbers [R]: the development
    speaks about the control flow and the algebra of the code, not about
    rounding.  Comparisons of the source ([<], [<=], [>=]) are decided with
    the Standard Library's [Rlt_dec], [Rle_dec], [Rge_dec].  The vector
    operations of the [thallium] crate ([dot], [sqr_length], [normalized],
    [reflect], the component-wise [+ - * /] and the scalar splat [.into()])
    are given their usual definitions. *)

From Stdlib Require Import Reals Lra List Arith Lia.
Import ListNotations.
Open Scope R_scope.

(** ** Vectors (thallium's [Vector3<f32>] and [Vector2<f32>]) *)

Record Vector3 := { x : R; y : R; z : R }.
Record Vector2 := { u : R; v : R }.

Definition vec3 (a b c : R) : Vector3 := {| x := a; y := b; z := c |}.
Definition vzero : Vector3 := vec3 0 0 0.
(** [s.into()] for a scalar [s] *)
Definition splat (s : R) : Vector3 := vec3 s s s.
Definition vadd (a b : Vector3) : Vector3 := vec3 (x a + x b) (y a + y b) (z a + z b).
Definition vsub (a b : Vector3) : Vector3 := vec3 (x a - x b) (y a - y b) (z a - z b).
Definition vmul (a b : Vector3) : Vector3 := vec3 (x a * x b) (y a * y b) (z a * z b).
Definition vdiv (a b : Vector3) : Vector3 := vec3 (x a / x b) (y a / y b) (z a / z b).
Definition vdot (a b : Vector3) : R := x a * x b + y a * y b + z a * z b.
Definition sqr_length (a : Vector3) : R := vdot a a.
Definition vlength (a : Vector3) : R := sqrt (sqr_length a).
Definition normalized (a : Vector3) : Vector3 := vdiv a (splat (vlength a)).
(** [self.reflect(normal)]: mirror [self] about the plane with normal [normal] *)
Definition reflect (d n : Vector3) : Vector3 :=
  vsub d (vmul n (splat (2 * vdot d n))).

(** ** Data model of [lib.rs] *)

Record Ray := { origin : Vector3; direction : Vector3 }.

Record Material := {
  diffuse_color : Vector3;
  emit_color : Vector3;
  reflectiveness : R }.

Record Hit := { position : Vector3; normal : Vector3; distance : R }.

Inductive Object :=
| Sphere (center : Vector3) (radius : R) (material : Material)
| Plane (pnormal : Vector3) (distance_along_normal : R) (material : Material).

Definition get_material (o : Object) : Material :=
  match o with
  | Sphere _ _ m | Plane _ _ m => m
  end.

(** [Object::intersect] *)
Definition intersect (o : Object) (ray : Ray) : option Hit :=
  match o with
  | Sphere center radius _ =>
      let oc := vsub (origin ray) center in
      let a := sqr_length (direction ray) in
      let half_b := vdot oc (direction ray) in
      let c := sqr_length oc - radius * radius in
      let discriminant := half_b * half_b - a * c in
      if Rlt_dec discriminant 0 then None else
      let dist := (- half_b - sqrt discriminant) / a in
      if Rle_dec dist 0 then None else
      let pos := vadd (origin ray) (vmul (direction ray) (splat dist)) in
      let nrm := vmul (vsub pos center) (splat (1 / radius)) in
      Some {| position := pos; normal := nrm; distance := dist |}
  | Plane nrm distance_along_normal _ =>
      let vd := vdot nrm (direction ray) in
      (* vd == 0.0 for double sided, vd >= 0.0 for one sided *)
      if Rge_dec vd 0 then None else
      let vo := - (vdot nrm (origin ray) + distance_along_normal) in
      let dist := vo / vd in
      if Rle_dec dist 0 then None else
      let pos := vadd (origin ray) (vmul (direction ray) (splat dist)) in
      Some {| position := pos; normal := nrm; distance := dist |}
  end.

(** ** Camera *)

Record Camera := {
  cam_position : Vector3;
  right : Vector3;
  up : Vector3;
  forward : Vector3 }.

(** [Camera::get_uv]: pixel coordinates over the surface size *)
Definition get_uv (px py width height : nat) : Vector2 :=
  {| u := INR px / INR width; v := INR py / INR height |}.

(** [Camera::get_ray] *)
Definition get_ray (cam : Camera) (uv : Vector2) (aspect : R) : Ray :=
  {| origin := cam_position cam;
     direction :=
       normalized
         (vadd (vadd (vmul (right cam) (splat ((u uv * 2 - 1) * aspect)))
                     (vmul (up cam) (splat (v uv * 2 - 1))))
               (forward cam)) |}.

(** ** Constants *)

Definition SAMPLES_PER_BOUNCE : nat := 2.
Definition BOUNCES : nat := 5.
Definition DAY : bool := false.

(** ** [get_closest_object]

    [objects.iter().enumerate().fold(None, ...)]: [enumerate_from k l] pairs
    every element of [l] with its index, counted from [k]. *)

Fixpoint enumerate_from {A} (k : nat) (l : list A) : list (nat * A) :=
  match l with
  | [] => []
  | a :: l' => (k, a) :: enumerate_from (S k) l'
  end.

Definition enumerate {A} (l : list A) : list (nat * A) := enumerate_from 0 l.

(** The closure passed to [fold]: [hit.zip(new_hit).map_or_else(|| hit.or(new_hit), ...)] *)
Definition closest_step (ray : Ray) (hit : option (Hit * nat)) (io : nat * Object)
  : option (Hit * nat) :=
  let new_hit := option_map (fun h => (h, fst io)) (intersect (snd io) ray) in
  match hit, new_hit with
  | Some h, Some nh =>
      if Rlt_dec (distance (fst h)) (distance (fst nh)) then Some h else Some nh
  | Some h, None => Some h
  | None, _ => new_hit
  end.

Definition get_closest_object (ray : Ray) (objects : list Object) : option (Hit * nat) :=
  fold_left (closest_step ray) (enumerate objects) None.

(** ** Random numbers

    [rand::RngCore] as an infinite stream of draws of [rng.gen::<f32>()]
    (values in [0,1)); [gen] takes the head and returns the rest. *)

Definition Rng := nat -> R.

Definition gen (rng : Rng) : R * Rng := (rng 0%nat, fun n => rng (S n)).

(** [f32::signum]: [1.0] on [+0.0] and positive values, [-1.0] on negative ones *)
Definition signum (a : R) : R := if Rlt_dec a 0 then -1 else 1.

(** [random_in_direction]: three draws, in the order x, y, z *)
Definition random_in_direction (rng : Rng) (dir : Vector3) : Vector3 * Rng :=
  let (rx, rng) := gen rng in
  let (ry, rng) := gen rng in
  let (rz, rng) := gen rng in
  let random := vec3 (rx * 2 - 1) (ry * 2 - 1) (rz * 2 - 1) in
  (vmul random (splat (signum (vdot random dir))), rng).

(** The [Ray { origin: ..., direction: ... }] built for each recursive call of
    [ray_trace] from the hit, the material, the mirror direction and the
    (already drawn) random direction. *)
Definition bounce_ray (hit : Hit) (material : Material) (dir random : Vector3) : Ray :=
  {| origin := vadd (position hit) (vmul (normal hit) (splat 0.001));
     direction := vadd (vmul random (splat (1 - reflectiveness material)))
                       (vmul dir (splat (reflectiveness material))) |}.

(** The two background radiances of the miss branch, selected by [DAY] *)
Definition sky_color (ray : Ray) : Vector3 :=
  let t := y (direction ray) * 0.5 + 0.5 in
  let up_color := vec3 1 1 1 in
  let down_color := vec3 0.5 0.7 1 in
  vadd (vmul up_color (splat (1 - t))) (vmul down_color (splat t)).

Definition night_color : Vector3 := vec3 0.1 0.1 0.1.

(** The loop [for _ in 0..n { in_color += ray_trace(Ray { ... }, objects, rng, depth - 1); }]
    of [lib.rs]'s [ray_trace]; [trace] is the recursive call. *)
Fixpoint sample_loop (trace : Ray -> Rng -> option (Vector3 * Rng)) (hit : Hit)
    (material : Material) (dir : Vector3) (n : nat) (in_color : Vector3) (rng : Rng)
  : option (Vector3 * Rng) :=
  match n with
  | O => Some (in_color, rng)
  | S n' =>
      let (random, rng) := random_in_direction rng dir in
      match trace (bounce_ray hit material dir random) rng with
      | None => None
      | Some (c, rng) => sample_loop trace hit material dir n' (vadd in_color c) rng
      end
  end.

(** [lib.rs]'s [ray_trace], with the static flag [DAY] as parameter [day].
    The result threads the random stream; [None] is the panic of an
    out-of-bounds [objects[index]]. *)
Fixpoint ray_trace_cfg (day : bool) (ray : Ray) (objects : list Object) (rng : Rng)
    (depth : nat) {struct depth} : option (Vector3 * Rng) :=
  match depth with
  | O => Some (vzero, rng)
  | S depth' =>
      match get_closest_object ray objects with
      | Some (hit, index) =>
          match nth_error objects index with
          | None => None
          | Some obj =>
              let material := get_material obj in
              let dir := reflect (direction ray) (normal hit) in
              match sample_loop (fun r g => ray_trace_cfg day r objects g depth')
                      hit material dir SAMPLES_PER_BOUNCE vzero rng with
              | None => None
              | Some (in_color, rng) =>
                  let in_color := vmul in_color (splat (1 / INR SAMPLES_PER_BOUNCE)) in
                  Some (vadd (emit_color material) (vmul (diffuse_color material) in_color),
                        rng)
              end
          end
      | None => Some (if day then sky_color ray else night_color, rng)
      end
  end.

Definition ray_trace (ray : Ray) (objects : list Object) (rng : Rng) (depth : nat)
  : option (Vector3 * Rng) :=
  ray_trace_cfg DAY ray objects rng depth.

(** ** The copies nested in [main.rs]

    The per-pixel closure of [main.rs] declares its own [get_closest_object]
    (without the index) and [ray_trace], which reads [hit.material].  The
    library's [Hit] declares no [material] field; the binary is modelled with
    the hit record it is written against, whose material is the one of the
    object that produced the hit. *)

Record MainHit := { hit : Hit; hit_material : Material }.

Definition main_intersect (o : Object) (ray : Ray) : option MainHit :=
  option_map (fun h => {| hit := h; hit_material := get_material o |}) (intersect o ray).

Definition main_closest_step (ray : Ray) (h : option MainHit) (o : Object)
  : option MainHit :=
  let new_hit := main_intersect o ray in
  match h, new_hit with
  | Some h, Some nh =>
      if Rlt_dec (distance (hit h)) (distance (hit nh)) then Some h else Some nh
  | Some h, None => Some h
  | None, _ => new_hit
  end.

Definition main_get_closest_object (ray : Ray) (objects : list Object) : option MainHit :=
  fold_left (main_closest_step ray) objects None.

(** The sampling loop of [main.rs]'s [ray_trace] *)
Fixpoint main_sample_loop (trace : Ray -> Rng -> Vector3 * Rng) (hit : Hit)
    (material : Material) (dir : Vector3) (n : nat) (in_color : Vector3) (rng : Rng)
  : Vector3 * Rng :=
  match n with
  | O => (in_color, rng)
  | S n' =>
      let (random, rng) := random_in_direction rng dir in
      let (c, rng) := trace (bounce_ray hit material dir random) rng in
      main_sample_loop trace hit material dir n' (vadd in_color c) rng
  end.

Fixpoint main_ray_trace (ray : Ray) (objects : list Object) (rng : Rng) (depth : nat)
  {struct depth} : Vector3 * Rng :=
  match depth with
  | O => (vzero, rng)
  | S depth' =>
      match main_get_closest_object ray objects with
      | Some h =>
          let dir := reflect (direction ray) (normal (hit h)) in
          let (in_color, rng) :=
            main_sample_loop (fun r g => main_ray_trace r objects g depth')
              (hit h) (hit_material h) dir SAMPLES_PER_BOUNCE vzero rng in
          let in_color := vmul in_color (splat (1 / INR SAMPLES_PER_BOUNCE)) in
          (vadd (emit_color (hit_material h)) (vmul (diffuse_color (hit_material h)) in_color),
           rng)
      | None => (sky_color ray, rng)
      end
  end.

(** ** Progressive accumulation of one pixel ([main.rs], lines 186-190, 287, 310) *)

(** [*pixel += (color - *pixel) / (frames_since_movement as f32 + 1.0).into()] *)
Definition accumulate (pixel color : Vector3) (frames_since_movement : nat) : Vector3 :=
  vadd pixel (vdiv (vsub color pixel) (splat (INR frames_since_movement + 1))).

(** One frame for one pixel: the [pixels.fill(Vector3::zero())] reset when
    [frames_since_movement == 0], then the update with this frame's estimate. *)
Definition render_pixel (frames_since_movement : nat) (pixel color : Vector3) : Vector3 :=
  let pixel := if Nat.eqb frames_since_movement 0 then vzero else pixel in
  accumulate pixel color frames_since_movement.

(** Frames without movement: frame [i] is rendered with counter [i + k] and
    the counter is incremented after each frame ([frames_since_movement += 1]). *)
Fixpoint run_frames (frames_since_movement : nat) (pixel : Vector3) (estimates : list Vector3)
  : Vector3 :=
  match estimates with
  | [] => pixel
  | s :: rest =>
      run_frames (S frames_since_movement) (render_pixel frames_since_movement pixel s) rest
  end.

Fixpoint vsum (l : list Vector3) : Vector3 :=
  match l with
  | [] => vzero
  | a :: l' => vadd a (vsum l')
  end.

Definition vscale (k : R) (a : Vector3) : Vector3 := vmul a (splat k).

(** ** The main loop of [main.rs] *)

(** The platform's surface events.  [main.rs] matches [Close] and [Resize];
    every other event, among them a mouse-button press at a pixel, falls
    into the [_ => {}] arm. *)
Inductive MouseButton := LeftButton | MiddleButton | RightButton.

Inductive SurfaceEvent :=
| Close
| Resize (width height : nat)
| MouseButtonDown (button : MouseButton) (px py : nat)
| OtherEvent.

Inductive Keycode := KeyW | KeyS | KeyA | KeyD | KeyQ | KeyE.

Record MainState := {
  camera_position : Vector3;
  pixels : list Vector3;
  surface_size : nat * nat;
  frames_since_movement : nat;
  scene_objects : list Object }.

Definition camera_right : Vector3 := vec3 1 0 0.
Definition camera_up : Vector3 := vec3 0 1 0.
Definition camera_forward : Vector3 := vec3 0 0 1.

(** The materials and the hard-coded [objects] array of [main.rs] *)
Definition plane_material : Material :=
  {| diffuse_color := vec3 0.2 0.8 0.3; emit_color := vec3 0 0 0; reflectiveness := 0 |}.
Definition sphere_material : Material :=
  {| diffuse_color := vec3 0.8 0.3 0.2; emit_color := vec3 0 0 0; reflectiveness := 0 |}.

Definition initial_objects : list Object :=
  [ Plane (vec3 0 1 0) 0
      plane_material;
    Sphere (vec3 0 1 0) 1
      sphere_material ].

Definition initial_state : MainState :=
  {| camera_position := vec3 0 1 (-3);
     pixels := repeat vzero (640 * 480);
     surface_size := (640%nat, 480%nat);
     frames_since_movement := 0;
     scene_objects := initial_objects |}.

(** [for event in renderer.get_surface_mut().events() { ... }]; [None] is
    [break 'main_loop]. *)
Fixpoint handle_events (events : list SurfaceEvent) (st : MainState) : option MainState :=
  match events with
  | [] => Some st
  | Close :: _ => None
  | Resize width height :: rest =>
      handle_events rest
        {| camera_position := camera_position st;
           pixels := repeat vzero (width * height);
           surface_size := (width, height);
           frames_since_movement := 0;
           scene_objects := scene_objects st |}
  | _ :: rest => handle_events rest st
  end.

(** One movement key: [if key_state(k) { camera_position += d * dt; moved = true; }] *)
Definition move_key (key_state : Keycode -> bool) (k : Keycode) (d : Vector3) (dt : R)
    (pm : Vector3 * bool) : Vector3 * bool :=
  if key_state k then (vadd (fst pm) (vscale dt d), true) else pm.

(** The [// Update] block *)
Definition update (key_state : Keycode -> bool) (dt : R) (st : MainState) : MainState :=
  let pm := (camera_position st, false) in
  let pm := move_key key_state KeyW camera_forward dt pm in
  let pm := move_key key_state KeyS (vscale (-1) camera_forward) dt pm in
  let pm := move_key key_state KeyA (vscale (-1) camera_right) dt pm in
  let pm := move_key key_state KeyD camera_right dt pm in
  let pm := move_key key_state KeyQ (vscale (-1) camera_up) dt pm in
  let pm := move_key key_state KeyE camera_up dt pm in
  {| camera_position := fst pm;
     pixels := pixels st;
     surface_size := surface_size st;
     frames_since_movement := if snd pm then 0%nat else frames_since_movement st;
     scene_objects := scene_objects st |}.

(** The [// Ray trace stuff] block, given this frame's per-pixel estimates
    [color] (computed by the parallel closure), then [frames_since_movement += 1]. *)
Definition render (estimates : list Vector3) (st : MainState) : MainState :=
  {| camera_position := camera_position st;
     pixels := map (fun pc => render_pixel (frames_since_movement st) (fst pc) (snd pc))
                   (combine (pixels st) estimates);
     surface_size := surface_size st;
     frames_since_movement := S (frames_since_movement st);
     scene_objects := scene_objects st |}.

Definition main_loop_iteration (events : list SurfaceEvent) (key_state : Keycode -> bool)
    (dt : R) (estimates : list Vector3) (st : MainState) : option MainState :=
  match handle_events events st with
  | None => None
  | Some st => Some (render estimates (update key_state dt st))
  end.

(** The camera ray through a pixel, as [Camera::get_uv] and [Camera::get_ray]
    compute it for the camera of the main loop. *)
Definition pixel_ray (st : MainState) (px py : nat) : Ray :=
  let (width, height) := surface_size st in
  get_ray {| cam_position := camera_position st; right := camera_right;
             up := camera_up; forward := camera_forward |}
          (get_uv px py width height) (INR width / INR height).

(** ** The per-pixel closure of [main.rs] (lines 268-285) *)

(** The jittered [uv] of one camera sample: [(x + rand*2 - 1) / width] *)
Definition jitter_uv (px py width height : nat) (jx jy : R) : Vector2 :=
  {| u := (INR px + jx * 2 - 1) / INR width; v := (INR py + jy * 2 - 1) / INR height |}.




(** ** Auxiliary predicates *)

(** Component-wise order on vectors *)
Definition vle (a b : Vector3) : Prop := x a <= x b /\ y a <= y b /\ z a <= z b.

(** The pixel buffer has [width * height] cells *)
Definition buffer_ok (st : MainState) : Prop :=
  List.length (pixels st) = (fst (surface_size st) * snd (surface_size st))%nat.

(** [1] when the key is held, [0] otherwise *)
Definition held (key_state : Keycode -> bool) (k : Keycode) : R :=
  if key_state k then 1 else 0.

(** What the fold computes: the hit of some object, no farther than any
    other hit, and strictly nearer than the hit of every later object. *)
Definition closest_result (ray : Ray) (objects : list Object) (r : option (Hit * nat))
  : Prop :=
  match r with
  | None => forall j o, nth_error objects j = Some o -> intersect o ray = None
  | Some (h, i) =>
      exists o, nth_error objects i = Some o /\ intersect o ray = Some h /\
        forall j o' h', nth_error objects j = Some o' -> intersect o' ray = Some h' ->
          distance h <= distance h' /\ ((i < j)%nat -> distance h < distance h')
  end.

(** ** Concrete scenes and rays *)

Definition ground (m : Material) : Object := Plane (vec3 0 1 0) 0 m.
Definition ray_down : Ray := {| origin := vec3 0 5 0; direction := vec3 0 (-1) 0 |}.
Definition hit_ground : Hit :=
  {| position := vec3 0 0 0; normal := vec3 0 1 0; distance := 5 |}.

Definition ball (m : Material) : Object := Sphere (vec3 0 1 0) 1 m.
Definition ray_forward : Ray := {| origin := vec3 0 1 (-3); direction := vec3 0 0 1 |}.
Definition hit_ball : Hit :=
  {| position := vec3 0 1 (-1); normal := vec3 0 0 (-1); distance := 2 |}.

Definition ray_inside : Ray := {| origin := vec3 0 1 0; direction := vec3 0 0 1 |}.

(** Pointing away from the ball, and from below the ground *)
Definition ray_backward : Ray := {| origin := vec3 0 1 (-3); direction := vec3 0 0 (-1) |}.

Definition ray_below : Ray := {| origin := vec3 0 (-1) 0; direction := vec3 0 (-1) 0 |}.

(** * Proofs *)

Lemma vec3_eta (a : Vector3) : a = vec3 (x a) (y a) (z a).
Proof. destruct a; reflexivity. Qed.

Lemma vec3_ext (a b : Vector3) : x a = x b -> y a = y b -> z a = z b -> a = b.
Proof. destruct a, b; simpl; intros; subst; reflexivity. Qed.

(** ** The fold of [get_closest_object] *)

Lemma enumerate_from_app {A} (k : nat) (l : list A) (a : A) :
  enumerate_from k (l ++ [a]) = enumerate_from k l ++ [((k + List.length l)%nat, a)].
Proof.
  revert k; induction l as [|b l IH]; intros k; simpl.
  - rewrite Nat.add_0_r; reflexivity.
  - rewrite IH, Nat.add_succ_r; reflexivity.
Qed.

Lemma get_closest_object_snoc ray l a :
  get_closest_object ray (l ++ [a]) =
  closest_step ray (get_closest_object ray l) (List.length l, a).
Proof.
  unfold get_closest_object, enumerate.
  rewrite enumerate_from_app, fold_left_app; reflexivity.
Qed.

Lemma nth_error_snoc {A} (l : list A) (a : A) (j : nat) :
  nth_error (l ++ [a]) j =
  if (j <? List.length l)%nat then nth_error l j
  else if (j =? List.length l)%nat then Some a else None.
Proof.
  destruct (Nat.ltb_spec j (List.length l)).
  - apply nth_error_app1; assumption.
  - rewrite nth_error_app2 by assumption.
    destruct (Nat.eqb_spec j (List.length l)).
    + subst; rewrite Nat.sub_diag; reflexivity.
    + destruct (j - List.length l)%nat eqn:E; [lia|].
      simpl; destruct n0; reflexivity.
Qed.

Lemma get_closest_object_result ray objects :
  closest_result ray objects (get_closest_object ray objects).
Proof.
  induction objects as [|a l IH] using rev_ind.
  - intros j o Hj; destruct j; discriminate.
  - rewrite get_closest_object_snoc.
    unfold closest_step; simpl.
    destruct (get_closest_object ray l) as [[h i]|] eqn:Eprev;
      destruct (intersect a ray) as [na|] eqn:Ea; simpl in *.
    + destruct IH as (o & Ho & Hh & Hmin).
      assert (Hi : (i < List.length l)%nat) by (apply nth_error_Some; congruence).
      destruct (Rlt_dec (distance h) (distance na)) as [Hlt|Hge].
      * exists o; split; [rewrite nth_error_app1; assumption|split; [assumption|]].
        intros j o' h' Hj Hj'; rewrite nth_error_snoc in Hj.
        destruct (Nat.ltb_spec j (List.length l)); [now apply (Hmin j o')|].
        destruct (Nat.eqb_spec j (List.length l)); [|discriminate].
        injection Hj as <-; rewrite Ea in Hj'; injection Hj' as <-; lra.
      * exists a; split; [rewrite nth_error_snoc, Nat.ltb_irrefl, Nat.eqb_refl; reflexivity|].
        split; [assumption|].
        intros j o' h' Hj Hj'; rewrite nth_error_snoc in Hj.
        destruct (Nat.ltb_spec j (List.length l)).
        -- destruct (Hmin j o' h' Hj Hj'); split; [lra|lia].
        -- destruct (Nat.eqb_spec j (List.length l)); [|discriminate].
           injection Hj as <-; rewrite Ea in Hj'; injection Hj' as <-; split; [lra|lia].
    + destruct IH as (o & Ho & Hh & Hmin).
      exists o; split; [rewrite nth_error_app1; [assumption|apply nth_error_Some; congruence]|].
      split; [assumption|].
      intros j o' h' Hj Hj'; rewrite nth_error_snoc in Hj.
      destruct (Nat.ltb_spec j (List.length l)); [now apply (Hmin j o')|].
      destruct (Nat.eqb_spec j (List.length l)); [|discriminate].
      injection Hj as <-; congruence.
    + exists a; split; [rewrite nth_error_snoc, Nat.ltb_irrefl, Nat.eqb_refl; reflexivity|].
      split; [assumption|].
      intros j o' h' Hj Hj'; rewrite nth_error_snoc in Hj.
      destruct (Nat.ltb_spec j (List.length l)); [rewrite (IH j o' Hj) in Hj'; discriminate|].
      destruct (Nat.eqb_spec j (List.length l)); [|discriminate].
      injection Hj as <-; rewrite Ea in Hj'; injection Hj' as <-; split; [lra|lia].
    + intros j o Hj; rewrite nth_error_snoc in Hj.
      destruct (Nat.ltb_spec j (List.length l)); [now apply (IH j)|].
      destruct (Nat.eqb_spec j (List.length l)); [|discriminate].
      injection Hj as <-; assumption.
Qed.

(** ** Concrete evaluations *)

Ltac decide_R :=
  repeat match goal with
  | |- context [Rlt_dec ?a ?b] => destruct (Rlt_dec a b); try (exfalso; lra)
  | |- context [Rle_dec ?a ?b] => destruct (Rle_dec a b); try (exfalso; lra)
  | |- context [Rge_dec ?a ?b] => destruct (Rge_dec a b); try (exfalso; lra)
  end.

Lemma intersect_ground_down m : intersect (ground m) ray_down = Some hit_ground.
Proof.
  unfold intersect, ground, ray_down, vdot; simpl.
  decide_R.
  unfold hit_ground, vadd, vmul, splat, vec3; simpl.
  f_equal; f_equal; f_equal; field.
Qed.

Ltac simpl_sqrt :=
  repeat match goal with
  | |- context [sqrt ?d] =>
      lazymatch d with
      | 1 => rewrite sqrt_1
      | _ => replace d with 1 by field
      end
  end.

Lemma intersect_ball_forward m : intersect (ball m) ray_forward = Some hit_ball.
Proof.
  unfold intersect, ball, ray_forward, sqr_length, vdot, vsub; simpl.
  simpl_sqrt.
  decide_R.
  unfold hit_ball, vadd, vsub, vmul, splat, vec3; simpl.
  f_equal; f_equal; f_equal; field.
Qed.

Lemma intersect_ball_inside m : intersect (ball m) ray_inside = None.
Proof.
  unfold intersect, ball, ray_inside, sqr_length, vdot, vsub; simpl.
  simpl_sqrt.
  decide_R; reflexivity.
Qed.

Lemma intersect_ground_forward m : intersect (ground m) ray_forward = None.
Proof.
  unfold intersect, ground, ray_forward, vdot; simpl.
  decide_R; reflexivity.
Qed.

Lemma pixel_ray_center : pixel_ray initial_state 320 240 = ray_forward.
Proof.
  unfold pixel_ray, initial_state.
  cbv beta iota delta [surface_size camera_position get_ray get_uv u v origin direction
    cam_position right up forward].
  rewrite !INR_IZR_INZ; simpl Z.of_nat.
  unfold ray_forward; f_equal.
  unfold normalized, vlength, sqr_length, vdot, vadd, vmul, vdiv, splat,
    camera_right, camera_up, camera_forward, vec3; simpl.
  simpl_sqrt.
  apply vec3_ext; simpl; field.
Qed.


(** ** The sampling loops *)

Lemma sample_loop_total trace hit material dir n in_color rng :
  (forall r g, exists p, trace r g = Some p) ->
  exists p, sample_loop trace hit material dir n in_color rng = Some p.
Proof.
  intros Htr; revert in_color rng; induction n as [|n IH]; intros in_color rng;
    cbn -[random_in_direction bounce_ray].
  - eexists; reflexivity.
  - destruct (random_in_direction rng dir) as [random rng1].
    destruct (Htr (bounce_ray hit material dir random) rng1) as [[c rng2] ->].
    apply IH.
Qed.

Lemma sample_loop_main trace f hit material dir n in_color rng :
  (forall r g, trace r g = Some (f r g)) ->
  sample_loop trace hit material dir n in_color rng =
  Some (main_sample_loop f hit material dir n in_color rng).
Proof.
  intros Htr; revert in_color rng; induction n as [|n IH]; intros in_color rng;
    cbn -[random_in_direction bounce_ray].
  - reflexivity.
  - destruct (random_in_direction rng dir) as [random rng1].
    rewrite Htr; destruct (f (bounce_ray hit material dir random) rng1) as [c rng2].
    apply IH.
Qed.

(** ** The binary's resolver against the library's *)

Lemma main_get_closest_object_refines ray objects :
  main_get_closest_object ray objects =
  match get_closest_object ray objects with
  | Some (h, i) =>
      match nth_error objects i with
      | Some o => Some {| hit := h; hit_material := get_material o |}
      | None => None
      end
  | None => None
  end.
Proof.
  induction objects as [|a l IH] using rev_ind; [reflexivity|].
  pose proof (get_closest_object_result ray l) as Hres.
  unfold main_get_closest_object in *; rewrite fold_left_app, get_closest_object_snoc.
  simpl; rewrite IH; clear IH.
  unfold closest_step, main_closest_step, main_intersect; simpl.
  destruct (get_closest_object ray l) as [[h i]|] eqn:Eprev.
  - destruct Hres as (o & Ho & _).
    assert (Hi : (i < List.length l)%nat) by (apply nth_error_Some; congruence).
    rewrite Ho.
    destruct (intersect a ray) as [na|]; simpl.
    + destruct (Rlt_dec (distance h) (distance na)); simpl.
      * rewrite nth_error_app1 by assumption; rewrite Ho; reflexivity.
      * rewrite nth_error_snoc, Nat.ltb_irrefl, Nat.eqb_refl; reflexivity.
    + rewrite nth_error_app1 by assumption; rewrite Ho; reflexivity.
  - destruct (intersect a ray) as [na|]; simpl; [|reflexivity].
    rewrite nth_error_snoc, Nat.ltb_irrefl, Nat.eqb_refl; reflexivity.
Qed.

(** ** C1 *)

(** C1 (as the code does it): [get_closest_object] returns the hit of an
    object [objects[i]] whose distance is no larger than any other hit's,
    and strictly smaller than the distance of every hit of a later object:
    among exactly equal distances the LAST object in iteration order wins.
    It returns [None] only when no object is hit. *)
Theorem get_closest_object_nearest_last_wins ray objects :
  match get_closest_object ray objects with
  | None => forall j o, nth_error objects j = Some o -> intersect o ray = None
  | Some (h, i) =>
      exists o, nth_error objects i = Some o /\ intersect o ray = Some h /\
        forall j o' h', nth_error objects j = Some o' -> intersect o' ray = Some h' ->
          distance h <= distance h' /\ ((i < j)%nat -> distance h < distance h')
  end.
Proof. exact (get_closest_object_result ray objects). Qed.

(** C1 (counterexample): two identical ground planes hit by the same ray at
    the same distance 5; the resolver returns index 1, the second object,
    not the first one. *)
Lemma get_closest_object_tie_not_first :
  intersect (ground plane_material) ray_down = Some hit_ground /\
  get_closest_object ray_down [ground plane_material; ground plane_material]
  = Some (hit_ground, 1%nat).
Proof.
  split; [apply intersect_ground_down|].
  unfold get_closest_object, enumerate, closest_step; cbn -[intersect ground ray_down].
  rewrite !intersect_ground_down; cbn -[hit_ground].
  destruct (Rlt_dec (distance hit_ground) (distance hit_ground)); [lra|reflexivity].
Qed.

(** ** C10 *)

(** C10: whenever [get_closest_object] returns [Some (hit, index)], [index]
    is below [objects.len()] and [hit] is the hit of [objects[index]]; hence
    the indexing [objects[index]] of [ray_trace] never panics: [ray_trace]
    always returns a radiance (for either value of [DAY]). *)
Theorem get_closest_object_index_in_bounds :
  (forall ray objects,
     match get_closest_object ray objects with
     | Some (h, i) =>
         (i < List.length objects)%nat /\
         exists o, nth_error objects i = Some o /\ intersect o ray = Some h
     | None => True
     end) /\
  (forall day ray objects rng depth,
     exists r, ray_trace_cfg day ray objects rng depth = Some r).
Proof.
  split.
  - intros ray objects.
    pose proof (get_closest_object_result ray objects) as H.
    destruct (get_closest_object ray objects) as [[h i]|]; [|exact I].
    destruct H as (o & Ho & Hh & _).
    split; [apply nth_error_Some; congruence|eauto].
  - intros day ray objects rng depth; revert ray rng.
    induction depth as [|depth IH]; intros ray rng;
      cbn -[sample_loop get_closest_object]; [eexists; reflexivity|].
    pose proof (get_closest_object_result ray objects) as H.
    destruct (get_closest_object ray objects) as [[h i]|]; [|eexists; reflexivity].
    destruct H as (o & Ho & _ & _); rewrite Ho.
    edestruct (sample_loop_total (fun r g => ray_trace_cfg day r objects g depth))
      as [[c g] ->]; [exact IH|].
    eexists; reflexivity.
Qed.

(** ** C6 *)

(** C6 (as the code does it): with an empty object list, [ray_trace] returns
    the background constant [(0.1, 0.1, 0.1)] of the [DAY = false]
    configuration, without drawing random numbers, at every depth at least 1;
    at depth 0 it returns zero radiance. *)
Theorem ray_trace_empty_background ray rng depth :
  ray_trace ray [] rng (S depth) = Some (vec3 0.1 0.1 0.1, rng) /\
  ray_trace ray [] rng 0 = Some (vzero, rng).
Proof. split; reflexivity. Qed.

(** C6 (counterexample): at depth 0 the empty scene yields zero radiance,
    not the background constant. *)
Lemma ray_trace_empty_depth0_not_background :
  ray_trace ray_down [] (fun _ => 0) 0 = Some (vzero, fun _ => 0) /\
  vzero <> night_color.
Proof.
  split; [reflexivity|].
  unfold vzero, night_color, vec3; intros H; injection H; lra.
Qed.

(** ** C9 *)

(** C9 (as the code does it): the [ray_trace] nested in [main.rs] computes,
    for every ray, object list, random stream and depth, exactly what the
    library's [ray_trace] computes in its [DAY = true] (sky gradient)
    configuration, consuming the same random numbers.  Under the default
    [DAY = false] the two differ whenever the ray itself misses every object
    at depth [>= 1]: [main.rs] returns the sky gradient (blue channel [1]),
    [lib.rs] the constant [(0.1, 0.1, 0.1)], both without consuming draws. *)
Theorem main_ray_trace_is_day_configuration ray objects rng depth :
  ray_trace_cfg true ray objects rng depth = Some (main_ray_trace ray objects rng depth) /\
  match depth, get_closest_object ray objects with
  | S _, None =>
      main_ray_trace ray objects rng depth = (sky_color ray, rng) /\
      ray_trace ray objects rng depth = Some (night_color, rng) /\
      sky_color ray <> night_color
  | _, _ => True
  end.
Proof.
  assert (Heq : forall ray rng,
             ray_trace_cfg true ray objects rng depth = Some (main_ray_trace ray objects rng depth)).
  { clear ray rng.
    induction depth as [|depth IH]; intros ray rng; [reflexivity|].
    cbn -[sample_loop main_sample_loop get_closest_object main_get_closest_object].
    rewrite main_get_closest_object_refines.
    pose proof (get_closest_object_result ray objects) as H.
    destruct (get_closest_object ray objects) as [[h i]|]; [|reflexivity].
    destruct H as (o & Ho & _ & _); rewrite Ho; cbn [hit hit_material].
    rewrite (sample_loop_main _ (fun r g => main_ray_trace r objects g depth)) by exact IH.
    destruct (main_sample_loop _ _ _ _ _ _ _); reflexivity. }
  split; [apply Heq|].
  destruct depth as [|d]; [exact I|].
  destruct (get_closest_object ray objects) as [[h i]|] eqn:Eg; [exact I|].
  specialize (Heq ray rng).
  cbn -[sample_loop main_sample_loop get_closest_object main_get_closest_object] in Heq.
  rewrite Eg in Heq; injection Heq as Heq.
  split; [symmetry; exact Heq|split].
  - unfold ray_trace; cbn -[sample_loop get_closest_object]; rewrite Eg; reflexivity.
  - intros H; apply (f_equal z) in H.
    unfold sky_color, night_color, vadd, vmul, splat, vec3 in H; cbn in H; lra.
Qed.

(** C9 (counterexample): a ray that misses (empty scene, depth 1): the
    binary's copy returns the sky gradient [(0.75, 0.85, 1)], the library's
    [ray_trace] (with [DAY = false]) the dark gray [(0.1, 0.1, 0.1)]. *)
Lemma main_ray_trace_differs_on_miss :
  main_ray_trace ray_forward [] (fun _ => 0) 1 = (vec3 0.75 0.85 1, fun _ => 0) /\
  ray_trace ray_forward [] (fun _ => 0) 1 = Some (vec3 0.1 0.1 0.1, fun _ => 0) /\
  vec3 0.75 0.85 1 <> vec3 0.1 0.1 0.1.
Proof.
  split; [|split; [reflexivity|]].
  - cbn; f_equal; apply vec3_ext; cbn; lra.
  - unfold vec3; intros H; injection H; lra.
Qed.

(** ** C3 *)

Lemma accumulate_mean (k : nat) (sum s : Vector3) :
  (1 <= k)%nat ->
  accumulate (vscale (/ INR k) sum) s k = vscale (/ INR (S k)) (vadd sum s).
Proof.
  intros Hk.
  assert (Hk0 : INR k <> 0) by (apply not_0_INR; lia).
  assert (Hk1 : INR k + 1 <> 0) by (pose proof (pos_INR k); lra).
  unfold accumulate, vscale; rewrite S_INR.
  apply vec3_ext; cbn; field; auto.
Qed.

Lemma run_frames_mean_from (estimates : list Vector3) :
  forall (k : nat) (sum : Vector3), (1 <= k)%nat ->
  run_frames k (vscale (/ INR k) sum) estimates =
  vscale (/ INR (k + List.length estimates)) (vadd sum (vsum estimates)).
Proof.
  induction estimates as [|s rest IH]; intros k sum Hk; cbn [run_frames List.length vsum].
  - rewrite Nat.add_0_r; f_equal; apply vec3_ext; cbn; ring.
  - unfold render_pixel.
    destruct (Nat.eqb_spec k 0) as [->|_]; [lia|].
    rewrite accumulate_mean by assumption.
    rewrite IH by lia.
    rewrite Nat.add_succ_r; cbn [Nat.add]; f_equal.
    apply vec3_ext; cbn; ring.
Qed.

(** C3: starting from any (possibly stale) pixel value with
    [frames_since_movement = 0], so that frame 0 resets the cell, and
    rendering frame [i] with counter [i] through
    [pixel += (S_i - pixel) / (i + 1)], after the [n >= 1] frames with
    estimates [S_0 .. S_(n-1)] the pixel is their arithmetic mean (exactly,
    in real arithmetic). *)
Theorem run_frames_arithmetic_mean (pixel s0 : Vector3) (rest : list Vector3) :
  run_frames 0 pixel (s0 :: rest) =
  vscale (/ INR (List.length (s0 :: rest))) (vsum (s0 :: rest)).
Proof.
  cbn [run_frames].
  assert (E : render_pixel 0 pixel s0 = vscale (/ INR 1) s0).
  { unfold render_pixel, accumulate, vscale; cbn [Nat.eqb INR].
    apply vec3_ext; cbn; field. }
  rewrite E, run_frames_mean_from by lia.
  reflexivity.
Qed.

(** ** C4 *)

(** C4: the sphere intersection only ever looks at the near root
    [t = (-half_b - sqrt(discriminant)) / a]: it reports no hit when
    [t <= 0], and a hit at distance [t] when [t > 0] (and the discriminant is
    not negative).  In particular a ray with a non-zero direction whose
    origin lies strictly inside the sphere gets no hit: the exit point is
    never reported. *)
Theorem sphere_near_root_only center radius material ray :
  let oc := vsub (origin ray) center in
  let a := sqr_length (direction ray) in
  let half_b := vdot oc (direction ray) in
  let discriminant := half_b * half_b - a * (sqr_length oc - radius * radius) in
  let t := (- half_b - sqrt discriminant) / a in
  (t <= 0 -> intersect (Sphere center radius material) ray = None) /\
  (0 <= discriminant -> 0 < t ->
     exists h, intersect (Sphere center radius material) ray = Some h /\ distance h = t) /\
  (0 < a -> sqr_length oc < radius * radius ->
     intersect (Sphere center radius material) ray = None).
Proof.
  intros oc a half_b discriminant t.
  assert (Hnear : t <= 0 -> intersect (Sphere center radius material) ray = None).
  { intros Ht; unfold intersect; fold oc a half_b.
    destruct (Rlt_dec _ 0); [reflexivity|].
    fold discriminant t.
    destruct (Rle_dec t 0); [reflexivity|lra]. }
  split; [exact Hnear|split].
  - intros Hd Ht; unfold intersect; fold oc a half_b.
    destruct (Rlt_dec _ 0) as [Hlt|_]; [fold discriminant in Hlt; lra|].
    fold discriminant t.
    destruct (Rle_dec t 0); [lra|].
    eexists; split; reflexivity.
  - intros Ha Hin; apply Hnear.
    assert (Hd : half_b * half_b < discriminant).
    { unfold discriminant; nra. }
    assert (Hs0 : 0 <= sqrt discriminant) by apply sqrt_pos.
    assert (Hss : sqrt discriminant * sqrt discriminant = discriminant).
    { apply sqrt_sqrt; nra. }
    assert (Hneg : - half_b - sqrt discriminant < 0) by nra.
    assert (Hia : 0 < / a) by (apply Rinv_0_lt_compat; assumption).
    unfold t, Rdiv; nra.
Qed.

(** Witness of C4: the sphere of the scene, a ray starting at its centre
    (no hit), and the camera ray of the scene (hit at distance 2). *)
Lemma sphere_near_root_only_witness :
  intersect (ball sphere_material) ray_inside = None /\
  (exists h, intersect (ball sphere_material) ray_forward = Some h /\ distance h = 2).
Proof.
  split.
  - destruct (sphere_near_root_only (vec3 0 1 0) 1 sphere_material ray_inside)
      as (_ & _ & Hin).
    apply Hin; unfold sqr_length, vdot, vsub, ray_inside; simpl; lra.
  - destruct (sphere_near_root_only (vec3 0 1 0) 1 sphere_material ray_forward)
      as (_ & Hhit & _).
    cbv zeta in Hhit.
    unfold ray_forward, sqr_length, vdot, vsub in Hhit; simpl in Hhit.
    replace ((0 - 0) * 0 + (1 - 1) * 0 + (-3 - 0) * 1) with (-3) in Hhit by ring.
    replace (-3 * -3 - (0 * 0 + 0 * 0 + 1 * 1) *
             ((0 - 0) * (0 - 0) + (1 - 1) * (1 - 1) + (-3 - 0) * (-3 - 0) - 1 * 1))
      with 1 in Hhit by ring.
    rewrite sqrt_1 in Hhit.
    replace ((- -3 - 1) / (0 * 0 + 0 * 0 + 1 * 1)) with 2 in Hhit by field.
    apply Hhit; lra.
Defined.

(** ** C5 *)

(** C5: a one-sided plane is never hit by a ray whose direction has a
    non-negative dot product [vd] with the plane's normal, whatever its
    origin; when [vd < 0] and the computed distance is positive, the hit
    carries the plane's stored normal unchanged. *)
Theorem plane_one_sided pnormal distance_along_normal material ray :
  (0 <= vdot pnormal (direction ray) ->
     intersect (Plane pnormal distance_along_normal material) ray = None) /\
  (vdot pnormal (direction ray) < 0 ->
   0 < - (vdot pnormal (origin ray) + distance_along_normal) / vdot pnormal (direction ray) ->
     exists h, intersect (Plane pnormal distance_along_normal material) ray = Some h /\
               normal h = pnormal).
Proof.
  split; intros Hvd; unfold intersect.
  - destruct (Rge_dec _ 0); [reflexivity|lra].
  - intros Hd.
    destruct (Rge_dec _ 0); [lra|].
    destruct (Rle_dec _ 0); [lra|].
    eexists; split; reflexivity.
Qed.

(** Witness of C5: the ground plane of the scene, missed by the horizontal
    camera ray ([vd = 0]) and hit by a ray pointing down. *)
Lemma plane_one_sided_witness :
  intersect (ground plane_material) ray_forward = None /\
  (exists h, intersect (ground plane_material) ray_down = Some h /\ normal h = vec3 0 1 0).
Proof.
  split.
  - apply (plane_one_sided (vec3 0 1 0) 0 plane_material ray_forward).
    unfold vdot, ray_forward; simpl; lra.
  - apply (plane_one_sided (vec3 0 1 0) 0 plane_material ray_down);
      unfold vdot, ray_down; simpl.
    + lra.
    + replace (0 * 0 + 1 * -1 + 0 * 0) with (-1) by ring.
      replace (- (0 * 0 + 1 * 5 + 0 * 0 + 0)) with (-5) by ring.
      replace (-5 / -1) with 5 by field; lra.
Defined.

(** ** C2 *)

(** C2 (as the code does it): the camera ray of [Camera::get_ray] (and the
    identical computation inlined in [main.rs]) has a unit-length direction
    whenever [right * x + up * y + forward] is not the zero vector.  The
    bounce rays are not normalized (see the counterexample below). *)
Theorem get_ray_unit_length cam uv aspect :
  0 < sqr_length (vadd (vadd (vmul (right cam) (splat ((u uv * 2 - 1) * aspect)))
                             (vmul (up cam) (splat (v uv * 2 - 1))))
                       (forward cam)) ->
  sqr_length (direction (get_ray cam uv aspect)) = 1.
Proof.
  unfold get_ray; cbn [direction].
  set (d := vadd (vadd _ _) (forward cam)).
  intros Hd.
  unfold normalized, vlength.
  assert (Hs : sqrt (sqr_length d) * sqrt (sqr_length d) = sqr_length d)
    by (apply sqrt_sqrt; lra).
  assert (Hs0 : sqrt (sqr_length d) <> 0) by (apply Rgt_not_eq, sqrt_lt_R0; lra).
  revert Hs Hs0 Hd; generalize (sqrt (sqr_length d)) as s; intros s Hs Hs0 Hd.
  unfold sqr_length at 1, vdot, vdiv, splat, vec3; cbn [x y z].
  replace (x d / s * (x d / s) + y d / s * (y d / s) + z d / s * (z d / s))
    with (sqr_length d / (s * s)) by (unfold sqr_length, vdot; field; exact Hs0).
  rewrite Hs; field; lra.
Qed.

(** Witness of C2: the centre of the image for the camera of [main.rs]. *)
Lemma get_ray_unit_length_witness :
  sqr_length (direction (get_ray {| cam_position := vec3 0 1 (-3); right := camera_right;
                                    up := camera_up; forward := camera_forward |}
                                  {| u := 0.5; v := 0.5 |} (4 / 3))) = 1.
Proof.
  apply get_ray_unit_length.
  unfold sqr_length, vdot, vadd, vmul, splat, camera_right, camera_up, camera_forward, vec3;
    cbn; lra.
Defined.

(** C2 (counterexample): the ground plane hit from above by [ray_down] with
    a random stream that always draws [0.75]: the random vector is
    [(0.5, 0.5, 0.5)], it lies on the side of the mirror direction [(0, 1, 0)],
    and with reflectiveness 0 the direction of the first bounce ray that
    [ray_trace] builds has squared length [0.75], not 1. *)
Lemma bounce_ray_not_unit_length :
  get_closest_object ray_down [ground plane_material] = Some (hit_ground, 0%nat) /\
  reflect (direction ray_down) (normal hit_ground) = vec3 0 1 0 /\
  random_in_direction (fun _ => 0.75) (vec3 0 1 0) = (vec3 0.5 0.5 0.5, fun _ => 0.75) /\
  sqr_length (direction (bounce_ray hit_ground plane_material (vec3 0 1 0)
                                    (vec3 0.5 0.5 0.5))) = 0.75.
Proof.
  split; [|split; [|split]].
  - unfold get_closest_object, enumerate, closest_step; cbn -[intersect ground ray_down].
    rewrite intersect_ground_down; reflexivity.
  - unfold reflect, vsub, vmul, splat, vdot, vec3; cbn.
    apply vec3_ext; cbn; ring.
  - unfold random_in_direction, gen, signum, vdot, vmul, splat, vec3; cbn.
    destruct (Rlt_dec _ 0); [lra|].
    f_equal; apply vec3_ext; cbn; lra.
  - unfold sqr_length, vdot, bounce_ray, vadd, vmul, splat, plane_material, vec3; cbn; lra.
Qed.

(** ** C7 *)

Lemma handle_events_scene events st :
  match handle_events events st with
  | Some st' => scene_objects st' = scene_objects st
  | None => True
  end.
Proof.
  revert st; induction events as [|ev rest IH]; intros st; [reflexivity|].
  destruct ev; cbn [handle_events]; try exact I.
  - apply (IH {| camera_position := camera_position st; pixels := repeat vzero (width * height);
                 surface_size := (width, height); frames_since_movement := 0;
                 scene_objects := scene_objects st |}).
  - apply IH.
  - apply IH.
Qed.

(** C7 (as the code does it): a mouse click is not handled by the main loop
    (it falls into the [_ => {}] arm and leaves the state unchanged), and no
    iteration of the main loop ever changes the object list: the scene is
    the fixed array [objects] of [main.rs]. *)
Theorem scene_fixed_clicks_ignored :
  (forall button px py st, handle_events [MouseButtonDown button px py] st = Some st) /\
  (forall events key_state dt estimates st,
     match main_loop_iteration events key_state dt estimates st with
     | Some st' => scene_objects st' = scene_objects st
     | None => True
     end).
Proof.
  split; [reflexivity|].
  intros events key_state dt estimates st; unfold main_loop_iteration.
  pose proof (handle_events_scene events st) as H.
  destruct (handle_events events st); [exact H|exact I].
Qed.

(** C7 (counterexample): in the initial state a left click at the centre
    pixel [(320, 240)] of the 640x480 surface, whose camera ray hits the
    sphere (object 1), leaves the object list as it is: no sphere is
    appended. *)
Lemma click_on_sphere_adds_nothing :
  get_closest_object (pixel_ray initial_state 320 240) initial_objects
    = Some (hit_ball, 1%nat) /\
  option_map scene_objects
    (main_loop_iteration [MouseButtonDown LeftButton 320 240] (fun _ => false) 0
       (repeat vzero (640 * 480)) initial_state) = Some initial_objects.
Proof.
  split; [|reflexivity].
  rewrite pixel_ray_center.
  change initial_objects with [ground plane_material; ball sphere_material].
  unfold get_closest_object, enumerate, closest_step; cbn -[intersect ground ball ray_forward].
  rewrite intersect_ground_forward, intersect_ball_forward; reflexivity.
Qed.

(** ** C8 *)

Lemma sqr_length_scale (w : Vector3) (k : R) :
  sqr_length (vmul w (splat k)) = k * k * sqr_length w.
Proof. unfold sqr_length, vdot, vmul, splat, vec3; cbn; ring. Qed.

Lemma sphere_point_offset (o d c : Vector3) (t : R) :
  vsub (vadd o (vmul d (splat t))) c = vadd (vsub o c) (vmul d (splat t)).
Proof. apply vec3_ext; cbn; ring. Qed.

Lemma sqr_length_along (oc d : Vector3) (t : R) :
  sqr_length (vadd oc (vmul d (splat t))) =
  sqr_length oc + 2 * t * vdot oc d + t * t * sqr_length d.
Proof. unfold sqr_length, vdot, vadd, vmul, splat, vec3; cbn; ring. Qed.

Lemma vdot_along (oc d : Vector3) (t k : R) :
  vdot (vmul (vadd oc (vmul d (splat t))) (splat k)) d =
  k * (vdot oc d + t * sqr_length d).
Proof. unfold sqr_length, vdot, vadd, vmul, splat, vec3; cbn; ring. Qed.

(** The near root lies on the sphere. *)
Lemma near_root_on_sphere (L r hb a s t : R) :
  0 < a -> s * s = hb * hb - a * (L - r * r) -> a * t = - hb - s ->
  L + 2 * t * hb + t * t * a = r * r.
Proof.
  intros Ha Hs Ht.
  assert (E : a * (2 * t * hb + t * t * a) = a * (- (L - r * r))).
  { replace (a * (2 * t * hb + t * t * a)) with (2 * hb * (a * t) + (a * t) * (a * t))
      by ring.
    rewrite Ht; nra. }
  apply Rmult_eq_reg_l in E; lra.
Qed.

(** C8 (as the code does it): a hit of [Object::intersect] records the
    position [origin + direction * distance], a strictly positive distance
    and a normal, and no material.  For a sphere of positive radius hit by
    a ray of non-zero direction, the normal has unit length and lies on the
    incidence side ([normal . direction <= 0]); for a plane, the normal is the
    plane's stored normal and [normal . direction < 0]. *)
Theorem intersect_hit_fields o ray h :
  0 < sqr_length (direction ray) ->
  intersect o ray = Some h ->
  0 < distance h /\
  position h = vadd (origin ray) (vmul (direction ray) (splat (distance h))) /\
  match o with
  | Sphere _ radius _ =>
      0 < radius -> sqr_length (normal h) = 1 /\ vdot (normal h) (direction ray) <= 0
  | Plane pnormal _ _ => normal h = pnormal /\ vdot (normal h) (direction ray) < 0
  end.
Proof.
  intros Ha H; destruct o as [center radius m|pnormal dn m]; unfold intersect in H.
  - set (oc := vsub (origin ray) center) in H.
    set (a := sqr_length (direction ray)) in *.
    set (hb := vdot oc (direction ray)) in H.
    set (disc := hb * hb - a * (sqr_length oc - radius * radius)) in H.
    destruct (Rlt_dec disc 0) as [|Hd]; [discriminate|].
    set (t := (- hb - sqrt disc) / a) in H.
    destruct (Rle_dec t 0) as [|Ht]; [discriminate|].
    injection H as <-; cbn [distance position normal].
    split; [lra|split; [reflexivity|intros Hr]].
    assert (Hat : a * t = - hb - sqrt disc) by (unfold t; field; lra).
    assert (Hs : sqrt disc * sqrt disc = disc) by (apply sqrt_sqrt; lra).
    rewrite sphere_point_offset; fold oc.
    split.
    + rewrite sqr_length_scale, sqr_length_along; fold hb a.
      rewrite (near_root_on_sphere (sqr_length oc) radius hb a (sqrt disc) t);
        [field; lra|lra|exact Hs|exact Hat].
    + rewrite vdot_along; fold hb a.
      replace (hb + t * a) with (- sqrt disc) by lra.
      assert (0 <= sqrt disc) by apply sqrt_pos.
      assert (0 < 1 / radius) by (apply Rdiv_lt_0_compat; lra).
      nra.
  - destruct (Rge_dec (vdot pnormal (direction ray)) 0) as [|Hvd]; [discriminate|].
    destruct (Rle_dec _ 0) as [|Hdist]; [discriminate|].
    injection H as <-; cbn [distance position normal].
    repeat split; [lra|lra].
Qed.

(** Witness of C8: the ground plane hit by [ray_down]. *)
Lemma intersect_hit_fields_witness :
  0 < distance hit_ground /\ normal hit_ground = vec3 0 1 0.
Proof.
  destruct (intersect_hit_fields (ground plane_material) ray_down hit_ground)
    as (Hd & _ & Hn & _).
  - unfold sqr_length, vdot, ray_down; cbn; lra.
  - apply intersect_ground_down.
  - split; [exact Hd|exact Hn].
Defined.

(** C8 (counterexample): the ground plane with the plane's material and
    with the sphere's material yield the very same [Hit] for [ray_down]:
    the hit record does not carry (a copy of) the object's material, which
    [ray_trace] reads through the index instead. *)
Lemma hit_does_not_carry_material :
  get_material (ground plane_material) <> get_material (ground sphere_material) /\
  intersect (ground plane_material) ray_down = Some hit_ground /\
  intersect (ground sphere_material) ray_down = Some hit_ground.
Proof.
  split; [|split; apply intersect_ground_down].
  unfold ground, plane_material, sphere_material, vec3; cbn.
  intros H; injection H; intros; lra.
Qed.

(** * Further properties of the code *)

(** ** Intersection geometry *)

Lemma vdot_scale_l (d : Vector3) (k : R) (w : Vector3) :
  vdot (vmul d (splat k)) w = k * vdot d w.
Proof. unfold vdot, vmul, splat, vec3; cbn; ring. Qed.

(** A ray of unit direction aimed at the centre of a sphere from a point at
    distance [L > radius > 0] hits it at distance [L - radius]. *)
Theorem sphere_hit_towards_center center radius material ray (L : R) :
  sqr_length (direction ray) = 1 ->
  vsub (origin ray) center = vmul (direction ray) (splat (- L)) ->
  0 < radius < L ->
  exists h, intersect (Sphere center radius material) ray = Some h /\
            distance h = L - radius.
Proof.
  intros Hd Hoc Hr; unfold intersect; rewrite Hoc.
  rewrite sqr_length_scale, vdot_scale_l; fold (sqr_length (direction ray)); rewrite Hd.
  replace (- L * 1 * (- L * 1) - 1 * (- L * - L * 1 - radius * radius))
    with (radius * radius) by ring.
  rewrite sqrt_square by lra.
  destruct (Rlt_dec (radius * radius) 0); [nra|].
  destruct (Rle_dec ((- (- L * 1) - radius) / 1) 0) as [Hle|_].
  - exfalso; replace ((- (- L * 1) - radius) / 1) with (L - radius) in Hle by field; lra.
  - eexists; split; [reflexivity|cbn; field].
Qed.

Lemma sphere_hit_towards_center_witness :
  exists h, intersect (ball sphere_material) ray_forward = Some h /\ distance h = 3 - 1.
Proof.
  apply (sphere_hit_towards_center (vec3 0 1 0) 1 sphere_material ray_forward 3).
  - unfold sqr_length, vdot, ray_forward; cbn; lra.
  - unfold ray_forward, vsub, vmul, splat, vec3; cbn; f_equal; lra.
  - lra.
Defined.

(** A sphere is never hit by a ray (of non-zero direction) that points away
    from its centre or perpendicular to it, [(origin - center) . direction >= 0],
    whether the origin is inside or outside. *)
Theorem sphere_miss_pointing_away center radius material ray :
  0 < sqr_length (direction ray) ->
  0 <= vdot (vsub (origin ray) center) (direction ray) ->
  intersect (Sphere center radius material) ray = None.
Proof.
  intros Ha Hb; unfold intersect.
  destruct (Rlt_dec _ 0); [reflexivity|].
  destruct (Rle_dec _ 0) as [|Hpos]; [reflexivity|].
  exfalso; apply Hpos.
  set (s := sqrt _); assert (0 <= s) by apply sqrt_pos.
  assert (Hi : 0 < / sqr_length (direction ray)) by (apply Rinv_0_lt_compat; exact Ha).
  unfold Rdiv; nra.
Qed.

Lemma sphere_miss_pointing_away_witness :
  intersect (ball sphere_material) ray_backward = None.
Proof.
  apply sphere_miss_pointing_away;
    unfold sqr_length, vdot, vsub, ray_backward; cbn; lra.
Defined.

(** The hit of a sphere (ray of non-zero direction) lies on the sphere. *)
Theorem sphere_hit_on_surface center radius material ray h :
  0 < sqr_length (direction ray) ->
  intersect (Sphere center radius material) ray = Some h ->
  sqr_length (vsub (position h) center) = radius * radius.
Proof.
  intros Ha H; unfold intersect in H.
  set (oc := vsub (origin ray) center) in H.
  set (a := sqr_length (direction ray)) in *.
  set (hb := vdot oc (direction ray)) in H.
  set (disc := hb * hb - a * (sqr_length oc - radius * radius)) in H.
  destruct (Rlt_dec disc 0) as [|Hd]; [discriminate|].
  set (t := (- hb - sqrt disc) / a) in H.
  destruct (Rle_dec t 0) as [|Ht]; [discriminate|].
  injection H as <-; cbn [position].
  rewrite sphere_point_offset; fold oc.
  rewrite sqr_length_along; fold hb a.
  apply (near_root_on_sphere _ _ hb a (sqrt disc) t); [lra| |].
  - rewrite sqrt_sqrt; [reflexivity|lra].
  - unfold t; field; lra.
Qed.

Lemma sphere_hit_on_surface_witness :
  sqr_length (vsub (position hit_ball) (vec3 0 1 0)) = 1 * 1.
Proof.
  apply (sphere_hit_on_surface (vec3 0 1 0) 1 sphere_material ray_forward).
  - unfold sqr_length, vdot, ray_forward; cbn; lra.
  - apply intersect_ball_forward.
Defined.

(** The hit of a plane lies on the plane [normal . p + distance_along_normal = 0]. *)
Theorem plane_hit_on_plane pnormal dn material ray h :
  intersect (Plane pnormal dn material) ray = Some h ->
  vdot pnormal (position h) + dn = 0.
Proof.
  intros H; unfold intersect in H.
  destruct (Rge_dec (vdot pnormal (direction ray)) 0) as [|Hvd]; [discriminate|].
  destruct (Rle_dec _ 0); [discriminate|].
  injection H as <-; cbn [position].
  assert (E : forall o d k, vdot pnormal (vadd o (vmul d (splat k))) =
                            vdot pnormal o + k * vdot pnormal d)
    by (intros; unfold vdot, vadd, vmul, splat, vec3; cbn; ring).
  rewrite E; field; lra.
Qed.

Lemma plane_hit_on_plane_witness :
  vdot (vec3 0 1 0) (position hit_ground) + 0 = 0.
Proof.
  apply (plane_hit_on_plane (vec3 0 1 0) 0 plane_material ray_down).
  apply intersect_ground_down.
Defined.

(** A one-sided plane is never hit from an origin behind it or on it
    ([normal . origin + distance_along_normal <= 0]), whatever the direction. *)
Theorem plane_miss_from_behind pnormal dn material ray :
  vdot pnormal (origin ray) + dn <= 0 ->
  intersect (Plane pnormal dn material) ray = None.
Proof.
  intros Hb; unfold intersect.
  destruct (Rge_dec (vdot pnormal (direction ray)) 0) as [|Hvd]; [reflexivity|].
  destruct (Rle_dec _ 0) as [|Hpos]; [reflexivity|].
  exfalso; apply Hpos.
  assert (Hi : / vdot pnormal (direction ray) < 0) by (apply Rinv_lt_0_compat; lra).
  unfold Rdiv; nra.
Qed.

Lemma plane_miss_from_behind_witness :
  intersect (ground plane_material) ray_below = None.
Proof.
  apply plane_miss_from_behind; unfold vdot, ray_below; cbn; lra.
Defined.

(** The camera ray through the image centre does not depend on the aspect
    ratio: it is the normalized forward vector. *)
Theorem get_ray_center_forward cam aspect :
  get_ray cam {| u := 0.5; v := 0.5 |} aspect =
  {| origin := cam_position cam; direction := normalized (forward cam) |}.
Proof.
  unfold get_ray; cbn [u v]; f_equal; f_equal.
  apply vec3_ext; cbn; lra.
Qed.

(** ** The integrator *)

(** [random_in_direction] returns a vector in the closed hemisphere around
    [direction] ([random . direction >= 0]) and consumes exactly three draws. *)
Theorem random_in_direction_hemisphere rng dir :
  0 <= vdot (fst (random_in_direction rng dir)) dir /\
  forall n, snd (random_in_direction rng dir) n = rng (n + 3)%nat.
Proof.
  split.
  - unfold random_in_direction, gen; cbn [fst].
    rewrite vdot_scale_l; unfold signum.
    destruct (Rlt_dec _ 0); lra.
  - intros n; cbn; f_equal; lia.
Qed.

Lemma sample_loop_stream trace hit material dir (K : nat) :
  (forall r g, exists k c g', (k <= K)%nat /\ trace r g = Some (c, g') /\
                              forall n, g' n = g (n + k)%nat) ->
  forall n in_color rng, exists k c rng',
    (k <= n * (3 + K))%nat /\
    sample_loop trace hit material dir n in_color rng = Some (c, rng') /\
    forall m, rng' m = rng (m + k)%nat.
Proof.
  intros Htr n; induction n as [|n IH]; intros in_color rng.
  - exists 0%nat, in_color, rng; repeat split; [lia|intros; f_equal; lia].
  - cbn -[random_in_direction bounce_ray].
    destruct (random_in_direction rng dir) as [random rng1] eqn:Er.
    assert (H1 : forall m, rng1 m = rng (m + 3)%nat).
    { intros m; pose proof (proj2 (random_in_direction_hemisphere rng dir) m) as E.
      rewrite Er in E; exact E. }
    destruct (Htr (bounce_ray hit material dir random) rng1) as (k1 & c1 & rng2 & Hk1 & -> & H2).
    destruct (IH (vadd in_color c1) rng2) as (k2 & c & rng' & Hk2 & -> & H3).
    exists (k2 + k1 + 3)%nat, c, rng'; repeat split; [lia|].
    intros m; rewrite H3, H2, H1; f_equal; lia.
Qed.

(** [ray_trace] reads the random stream sequentially: at depth [d] it
    consumes a prefix of at most [6 * (2^d - 1)] draws (three per bounce
    ray, two bounce rays per hit) and returns the rest of the stream. *)
Theorem ray_trace_consumes_prefix day ray objects rng depth :
  exists k c rng',
    (k <= 6 * (2 ^ depth - 1))%nat /\
    ray_trace_cfg day ray objects rng depth = Some (c, rng') /\
    forall n, rng' n = rng (n + k)%nat.
Proof.
  revert ray rng; induction depth as [|depth IH]; intros ray rng.
  - exists 0%nat, vzero, rng; repeat split; [lia|intros; f_equal; lia].
  - cbn -[sample_loop get_closest_object Nat.pow SAMPLES_PER_BOUNCE].
    pose proof (get_closest_object_result ray objects) as H.
    destruct (get_closest_object ray objects) as [[h i]|].
    + destruct H as (o & Ho & _ & _); rewrite Ho.
      destruct (sample_loop_stream (fun (r : Ray) (g : Rng) => ray_trace_cfg day r objects g depth)
                  h (get_material o) (reflect (direction ray) (normal h))
                  (6 * (2 ^ depth - 1)) IH SAMPLES_PER_BOUNCE vzero rng)
        as (k & c & rng' & Hk & -> & Hr).
      exists k; eexists; exists rng'; repeat split; [|exact Hr].
      unfold SAMPLES_PER_BOUNCE in Hk; rewrite Nat.pow_succ_r'.
      pose proof (Nat.pow_nonzero 2 depth ltac:(lia)); lia.
    + exists 0%nat; eexists; exists rng; repeat split; [lia|intros; f_equal; lia].
Qed.

(** At depth 1 [ray_trace] returns exactly the emitted colour of the object
    hit (the bounce rays reach depth 0 and bring no light); on a miss it
    returns the background at every depth [>= 1] without drawing random
    numbers. *)
Theorem ray_trace_depth1_direct_light day ray objects rng :
  match get_closest_object ray objects with
  | Some (h, i) =>
      exists o rng', nth_error objects i = Some o /\
        ray_trace_cfg day ray objects rng 1 = Some (emit_color (get_material o), rng')
  | None =>
      forall depth, ray_trace_cfg day ray objects rng (S depth) =
                    Some (if day then sky_color ray else night_color, rng)
  end.
Proof.
  pose proof (get_closest_object_result ray objects) as H.
  destruct (get_closest_object ray objects) as [[h i]|] eqn:E.
  - destruct H as (o & Ho & _ & _).
    cbn -[get_closest_object random_in_direction bounce_ray]; rewrite E, Ho.
    destruct (random_in_direction rng _) as [r1 g1].
    destruct (random_in_direction g1 _) as [r2 g2].
    exists o, g2; split; [reflexivity|].
    f_equal; f_equal; apply vec3_ext; cbn; ring.
  - intros depth; cbn -[get_closest_object]; rewrite E; reflexivity.
Qed.

(** ** Radiance bounds *)

Lemma sample_loop_inv (P : nat -> Vector3 -> Prop) (Q : Vector3 -> Prop)
    trace hit material dir :
  (forall r g c g', trace r g = Some (c, g') -> Q c) ->
  (forall k a b, P k a -> Q b -> P (S k) (vadd a b)) ->
  forall n k in_color rng c rng',
    P k in_color ->
    sample_loop trace hit material dir n in_color rng = Some (c, rng') ->
    P (k + n)%nat c.
Proof.
  intros HQ HP n; induction n as [|n IH]; intros k in_color rng c rng' Hk Hs.
  - injection Hs as <- <-; rewrite Nat.add_0_r; exact Hk.
  - cbn -[random_in_direction bounce_ray] in Hs.
    destruct (random_in_direction rng dir) as [random rng1].
    destruct (trace (bounce_ray hit material dir random) rng1) as [[c1 rng2]|] eqn:Et;
      [|discriminate].
    rewrite Nat.add_succ_r, <- Nat.add_succ_l.
    exact (IH (S k) _ _ _ _ (HP _ _ _ Hk (HQ _ _ _ _ Et)) Hs).
Qed.

Ltac vle_solve :=
  unfold vle, vadd, vmul, splat, vzero, vec3 in *; cbn in *;
  repeat match goal with H : _ /\ _ |- _ => destruct H end;
  repeat split; nra.

(** With non-negative emitted and diffuse colours on every object, the
    radiance returned by [ray_trace] is non-negative in every channel. *)
Theorem ray_trace_radiance_nonneg ray objects rng depth :
  (forall o, In o objects ->
     vle vzero (emit_color (get_material o)) /\ vle vzero (diffuse_color (get_material o))) ->
  match ray_trace ray objects rng depth with
  | Some (c, _) => vle vzero c
  | None => True
  end.
Proof.
  intros Hm; unfold ray_trace.
  enough (Hgen : forall depth ray rng c g,
             ray_trace_cfg DAY ray objects rng depth = Some (c, g) -> vle vzero c).
  { destruct (ray_trace_cfg DAY ray objects rng depth) as [[c g]|] eqn:E;
      [exact (Hgen _ _ _ _ _ E)|exact I]. }
  clear ray rng depth; intros depth; induction depth as [|depth IH]; intros ray rng c g Ht.
  - injection Ht as <- _; vle_solve.
  - cbn -[sample_loop get_closest_object] in Ht.
    pose proof (get_closest_object_result ray objects) as H.
    destruct (get_closest_object ray objects) as [[h i]|].
    + destruct H as (o & Ho & _ & _); rewrite Ho in Ht.
      destruct (Hm o (nth_error_In _ _ Ho)) as [He Hd].
      destruct (sample_loop _ _ _ _ _ _ _) as [[ic g1]|] eqn:Es; [|discriminate].
      injection Ht as <- _.
      assert (Hic : vle vzero ic).
      { refine (sample_loop_inv (fun _ c => vle vzero c) (vle vzero) _ _ _ _
                  (fun r g c g' Hr => IH r g c g' Hr) _ _ 0%nat vzero _ _ _ _ Es).
        - intros k a b Ha Hb; vle_solve.
        - vle_solve. }
      replace (1 / INR SAMPLES_PER_BOUNCE) with (1 / 2) by (cbn; field).
      vle_solve.
    + injection Ht as <- _; unfold DAY, night_color; vle_solve.
Qed.

(** Witness: the scene of [main.rs]. *)
Lemma ray_trace_radiance_nonneg_witness :
  match ray_trace ray_forward initial_objects (fun _ => 0) BOUNCES with
  | Some (c, _) => vle vzero c
  | None => True
  end.
Proof.
  apply ray_trace_radiance_nonneg.
  intros o [<-|[<-|[]]]; cbn; unfold plane_material, sphere_material; split; vle_solve.
Defined.

(** With diffuse colours in [[0, 1]] and emitted colours in [[0, E]] on
    every object, the radiance of [ray_trace] at depth [d] lies in
    [[0, 0.1 + d * E]] in every channel: each bounce adds at most the
    emission [E] to the background [0.1]. *)
Theorem ray_trace_radiance_bounded ray objects rng depth (E : R) :
  0 <= E ->
  (forall o, In o objects ->
     vle vzero (emit_color (get_material o)) /\ vle (emit_color (get_material o)) (splat E) /\
     vle vzero (diffuse_color (get_material o)) /\ vle (diffuse_color (get_material o)) (splat 1)) ->
  match ray_trace ray objects rng depth with
  | Some (c, _) => vle vzero c /\ vle c (splat (0.1 + INR depth * E))
  | None => True
  end.
Proof.
  intros HE Hm; unfold ray_trace.
  enough (Hgen : forall depth ray rng c g,
             ray_trace_cfg DAY ray objects rng depth = Some (c, g) ->
             vle vzero c /\ vle c (splat (0.1 + INR depth * E))).
  { destruct (ray_trace_cfg DAY ray objects rng depth) as [[c g]|] eqn:Et;
      [exact (Hgen _ _ _ _ _ Et)|exact I]. }
  clear ray rng depth; intros depth; induction depth as [|depth IH]; intros ray rng c g Ht.
  - injection Ht as <- _; cbn [INR]; vle_solve.
  - cbn -[sample_loop get_closest_object INR] in Ht.
    pose proof (pos_INR depth) as Hd0.
    rewrite S_INR.
    pose proof (get_closest_object_result ray objects) as H.
    destruct (get_closest_object ray objects) as [[h i]|].
    + destruct H as (o & Ho & _ & _); rewrite Ho in Ht.
      destruct (Hm o (nth_error_In _ _ Ho)) as (He0 & He1 & Hd1 & Hd2).
      destruct (sample_loop _ _ _ _ _ _ _) as [[ic g1]|] eqn:Es; [|discriminate].
      injection Ht as <- _.
      set (B := 0.1 + INR depth * E) in *.
      assert (HB : 0 <= B) by (unfold B; nra).
      assert (Hic : vle vzero ic /\ vle ic (splat (INR (0 + SAMPLES_PER_BOUNCE) * B))).
      { refine (sample_loop_inv (fun k c => vle vzero c /\ vle c (splat (INR k * B)))
                  (fun c => vle vzero c /\ vle c (splat B)) _ _ _ _
                  (fun r g c g' Hr => IH r g c g' Hr) _ _ 0%nat vzero _ _ _ _ Es).
        - intros k a b Ha Hb; rewrite S_INR; vle_solve.
        - cbn [INR]; vle_solve. }
      replace (INR (0 + SAMPLES_PER_BOUNCE)) with 2 in Hic by (cbn; ring).
      replace (1 / INR SAMPLES_PER_BOUNCE) with (1 / 2) by (cbn; field).
      unfold vle, vadd, vmul, splat, vzero, vec3 in *; cbn in *; repeat match goal with H : _ /\ _ |- _ => destruct H end. unfold B in *; repeat split; nra.
    + injection Ht as <- _; unfold DAY, night_color; vle_solve.
Qed.

(** Witness: the scene of [main.rs] emits no light, so its radiance never
    exceeds the background [0.1]. *)
Lemma ray_trace_radiance_bounded_witness :
  match ray_trace ray_forward initial_objects (fun _ => 0) BOUNCES with
  | Some (c, _) => vle vzero c /\ vle c (splat (0.1 + INR BOUNCES * 0))
  | None => True
  end.
Proof.
  apply ray_trace_radiance_bounded; [lra|].
  intros o [<-|[<-|[]]]; cbn; unfold plane_material, sphere_material;
    repeat split; vle_solve.
Defined.

(** ** The main loop *)

(** The event loop leaves ['main_loop] exactly when the batch contains a
    [Close] event; any other batch is processed to its end. *)
Theorem handle_events_none_iff_close events st :
  handle_events events st = None <-> In Close events.
Proof.
  revert st; induction events as [|ev rest IH]; intros st; cbn.
  - split; [discriminate|intros []].
  - destruct ev as [|w h|b px py|]; cbn.
    + split; [intros _; left; reflexivity|reflexivity].
    + rewrite IH; split; [intros H; right; exact H|intros [H|H]; [discriminate|exact H]].
    + rewrite IH; split; [intros H; right; exact H|intros [H|H]; [discriminate|exact H]].
    + rewrite IH; split; [intros H; right; exact H|intros [H|H]; [discriminate|exact H]].
Qed.

Lemma handle_events_buffer_ok events st st' :
  buffer_ok st -> handle_events events st = Some st' -> buffer_ok st'.
Proof.
  revert st; induction events as [|ev rest IH]; intros st Hb He; cbn in He.
  - injection He as <-; exact Hb.
  - destruct ev as [|w h|b px py|]; [discriminate| | |]; refine (IH _ _ He).
    + unfold buffer_ok; cbn; apply repeat_length.
    + exact Hb.
    + exact Hb.
Qed.

Lemma render_length estimates st :
  List.length estimates = List.length (pixels st) ->
  List.length (pixels (render estimates st)) = List.length (pixels st).
Proof.
  intros H; cbn; rewrite length_map, length_combine, H; apply Nat.min_id.
Qed.

(** The pixel buffer always has [width * height] cells: a resize reallocates
    it, and neither the movement update nor the per-pixel pass (which yields
    one estimate per cell) changes its length. *)
Theorem main_loop_iteration_buffer_ok events key_state dt estimates st st' :
  buffer_ok st ->
  (forall st1, handle_events events st = Some st1 ->
     List.length estimates = List.length (pixels st1)) ->
  main_loop_iteration events key_state dt estimates st = Some st' ->
  buffer_ok st'.
Proof.
  intros Hb Hl Hi; unfold main_loop_iteration in Hi.
  destruct (handle_events events st) as [st1|] eqn:He; [|discriminate].
  injection Hi as <-.
  pose proof (handle_events_buffer_ok _ _ _ Hb He) as Hb1.
  specialize (Hl st1 eq_refl).
  unfold buffer_ok in *.
  rewrite render_length; cbn; [exact Hb1|exact Hl].
Qed.

(** Witness: the start-up state, a resize to 2 x 1 and a frame of two estimates. *)
Lemma main_loop_iteration_buffer_ok_witness :
  buffer_ok initial_state /\
  buffer_ok {| camera_position := vec3 0 1 (-3); pixels := [vzero; vzero];
               surface_size := (2%nat, 1%nat); frames_since_movement := 1;
               scene_objects := initial_objects |}.
Proof.
  split; [exact (repeat_length vzero (640 * 480))|].
  apply (main_loop_iteration_buffer_ok [Resize 2 1] (fun _ => false) 0
           [vzero; vzero] initial_state).
  - exact (repeat_length vzero (640 * 480)).
  - intros st1 H; cbn in H; injection H as <-; reflexivity.
  - unfold main_loop_iteration, render, update, move_key; cbn.
    unfold render_pixel, accumulate; cbn.
    repeat f_equal; apply vec3_ext; cbn; lra.
Defined.

(** The movement update moves the camera by [dt] times the sum of the held
    keys' directions (D/A along [camera_right], E/Q along [camera_up], W/S
    along [camera_forward]), resets [frames_since_movement] exactly when a
    key is held, and changes nothing else. *)
Theorem update_moves_camera key_state dt st :
  let st' := update key_state dt st in
  camera_position st' =
    vadd (camera_position st)
      (vscale dt (vadd (vadd (vscale (held key_state KeyD - held key_state KeyA) camera_right)
                             (vscale (held key_state KeyE - held key_state KeyQ) camera_up))
                       (vscale (held key_state KeyW - held key_state KeyS) camera_forward))) /\
  frames_since_movement st' =
    (if (key_state KeyW || key_state KeyS || key_state KeyA || key_state KeyD
        || key_state KeyQ || key_state KeyE)%bool
     then 0%nat else frames_since_movement st) /\
  pixels st' = pixels st /\ surface_size st' = surface_size st /\
  scene_objects st' = scene_objects st.
Proof.
  cbv zeta; unfold update, held, move_key.
  destruct (key_state KeyW), (key_state KeyS), (key_state KeyA), (key_state KeyD),
    (key_state KeyQ), (key_state KeyE); cbn;
    (split; [apply vec3_ext; cbn; ring|repeat split]).
Qed.

Lemma render_pixel_reset pixel color : render_pixel 0 pixel color = color.
Proof.
  unfold render_pixel, accumulate; cbn.
  apply vec3_ext; cbn; field.
Qed.

(** On the first frame after a movement or a resize
    ([frames_since_movement = 0]) the buffer becomes exactly this frame's
    estimates: whatever was accumulated before is discarded. *)
Theorem render_first_frame_discards estimates st :
  frames_since_movement st = 0%nat ->
  List.length estimates = List.length (pixels st) ->
  pixels (render estimates st) = estimates /\ frames_since_movement (render estimates st) = 1%nat.
Proof.
  intros H0 Hl; cbn; rewrite H0; split; [|reflexivity].
  generalize (pixels st) Hl; clear Hl; induction estimates as [|e es IH];
    intros [|p ps] Hl; cbn in *; try discriminate; [reflexivity|].
  rewrite render_pixel_reset; f_equal; apply IH; injection Hl as Hl; exact Hl.
Qed.

(** Witness: a stale pixel [(7, 7, 7)] is replaced by the estimate. *)
Lemma render_first_frame_discards_witness :
  pixels (render [vec3 1 2 3]
            {| camera_position := vzero; pixels := [vec3 7 7 7]; surface_size := (1%nat, 1%nat);
               frames_since_movement := 0; scene_objects := [] |}) = [vec3 1 2 3] /\
  frames_since_movement
    (render [vec3 1 2 3]
       {| camera_position := vzero; pixels := [vec3 7 7 7]; surface_size := (1%nat, 1%nat);
          frames_since_movement := 0; scene_objects := [] |}) = 1%nat.
Proof. apply render_first_frame_discards; reflexivity. Defined.

(** Any box that contains the current pixel and this frame's estimate also
    contains the updated pixel: the running average never overshoots. *)
Theorem render_pixel_within_box frames lo hi pixel color :
  vle lo pixel -> vle pixel hi -> vle lo color -> vle color hi ->
  vle lo (render_pixel frames pixel color) /\ vle (render_pixel frames pixel color) hi.
Proof.
  intros H1 H2 H3 H4.
  destruct (Nat.eqb_spec frames 0) as [->|Hf].
  - rewrite render_pixel_reset; split; assumption.
  - unfold render_pixel; apply Nat.eqb_neq in Hf; rewrite Hf.
    unfold accumulate, vle, vadd, vdiv, vsub, splat in *; cbn in *.
    pose proof (pos_INR frames) as Hp.
    assert (Hk : 0 < / (INR frames + 1)) by (apply Rinv_0_lt_compat; lra).
    assert (Hk1 : / (INR frames + 1) <= 1).
    { rewrite <- Rinv_1; apply Rinv_le_contravar; lra. }
    unfold Rdiv; repeat match goal with H : _ /\ _ |- _ => destruct H end;
    repeat split; nra.
Qed.

(** Witness: averaging [(0, 0, 0)] with [(1, 1, 1)] on the second frame
    stays in the unit box. *)
Lemma render_pixel_within_box_witness :
  vle vzero (render_pixel 1 vzero (vec3 1 1 1)) /\ vle (render_pixel 1 vzero (vec3 1 1 1)) (vec3 1 1 1).
Proof.
  apply render_pixel_within_box; unfold vle, vzero, vec3; cbn; repeat split; lra.
Defined.

(** ** The per-pixel closure *)


(** The jittered sample position of pixel [px] stays within one pixel of
    [px] ([[px - 1, px + 1)] in pixels) when the draw is in [[0, 1)], and the
    centre draw [0.5] gives exactly [Camera::get_uv]. *)
Theorem jitter_uv_within_pixel px py width height jx jy :
  (0 < width)%nat -> (0 < height)%nat -> 0 <= jx < 1 -> 0 <= jy < 1 ->
  (INR px - 1) / INR width <= u (jitter_uv px py width height jx jy) < (INR px + 1) / INR width /\
  (INR py - 1) / INR height <= v (jitter_uv px py width height jx jy) < (INR py + 1) / INR height /\
  jitter_uv px py width height 0.5 0.5 = get_uv px py width height.
Proof.
  intros Hw Hh Hx Hy.
  apply lt_0_INR in Hw; apply lt_0_INR in Hh.
  unfold jitter_uv, get_uv; cbn.
  assert (Hw' : 0 < / INR width) by (apply Rinv_0_lt_compat; lra).
  assert (Hh' : 0 < / INR height) by (apply Rinv_0_lt_compat; lra).
  unfold Rdiv; split; [|split]; [split; nra|split; nra|].
  f_equal; f_equal; lra.
Qed.

(** Witness: pixel (3, 2) of a 4 x 4 surface with draws 0 and 0.99. *)
Lemma jitter_uv_within_pixel_witness :
  (INR 3 - 1) / INR 4 <= u (jitter_uv 3 2 4 4 0 0.99) < (INR 3 + 1) / INR 4 /\
  (INR 2 - 1) / INR 4 <= v (jitter_uv 3 2 4 4 0 0.99) < (INR 2 + 1) / INR 4 /\
  jitter_uv 3 2 4 4 0.5 0.5 = get_uv 3 2 4 4.
Proof. apply jitter_uv_within_pixel; [lia|lia|lra|lra]. Defined.

(** ** More on the library *)

(** The day sky blends [(1, 1, 1)] and [(0.5, 0.7, 1)]: for a direction with
    [-1 <= y <= 1] (any unit direction) the colour lies in the box between
    them, with [(0.5, 0.7, 1)] straight up and white straight down. *)
Theorem sky_color_between ray :
  -1 <= y (direction ray) <= 1 ->
  vle (vec3 0.5 0.7 1) (sky_color ray) /\ vle (sky_color ray) (vec3 1 1 1) /\
  sky_color {| origin := origin ray; direction := vec3 0 1 0 |} = vec3 0.5 0.7 1 /\
  sky_color {| origin := origin ray; direction := vec3 0 (-1) 0 |} = vec3 1 1 1.
Proof.
  intros Hy; unfold sky_color, vle, vadd, vmul, splat, vec3; cbn.
  split; [|split; [|split]]; [repeat split; lra|repeat split; lra| |];
    f_equal; lra.
Qed.

(** Witness: a ray pointing straight ahead. *)
Lemma sky_color_between_witness :
  vle (vec3 0.5 0.7 1) (sky_color ray_forward) /\ vle (sky_color ray_forward) (vec3 1 1 1) /\
  sky_color {| origin := origin ray_forward; direction := vec3 0 1 0 |} = vec3 0.5 0.7 1 /\
  sky_color {| origin := origin ray_forward; direction := vec3 0 (-1) 0 |} = vec3 1 1 1.
Proof. apply sky_color_between; cbn; lra. Defined.

(** A perfect mirror ([reflectiveness = 1]) sends the bounce ray along the
    mirror direction whatever the random draw, and a fully diffuse material
    ([reflectiveness = 0]) along the random draw; both start [0.001] along
    the normal from the hit point. *)
Theorem bounce_ray_extremes hit material dir random :
  origin (bounce_ray hit material dir random) = vadd (position hit) (vscale 0.001 (normal hit)) /\
  (reflectiveness material = 1 -> direction (bounce_ray hit material dir random) = dir) /\
  (reflectiveness material = 0 -> direction (bounce_ray hit material dir random) = random).
Proof.
  unfold bounce_ray, vscale; cbn; split; [reflexivity|split]; intros Hk; rewrite Hk;
    unfold vadd, vmul, splat; apply vec3_ext; cbn; ring.
Qed.

Lemma closest_step_shift ray acc k a :
  closest_step ray (option_map (fun p => (fst p, S (snd p))) acc) (S k, a) =
  option_map (fun p => (fst p, S (snd p))) (closest_step ray acc (k, a)).
Proof.
  unfold closest_step; cbn.
  destruct acc as [[h i]|], (intersect a ray) as [nh|]; cbn; try reflexivity.
  destruct (Rlt_dec (distance h) (distance nh)); reflexivity.
Qed.

Lemma fold_closest_shift ray l k acc :
  fold_left (closest_step ray) (enumerate_from (S k) l)
    (option_map (fun p => (fst p, S (snd p))) acc) =
  option_map (fun p => (fst p, S (snd p))) (fold_left (closest_step ray) (enumerate_from k l) acc).
Proof.
  revert k acc; induction l as [|a l IH]; intros k acc; cbn; [reflexivity|].
  rewrite closest_step_shift; apply IH.
Qed.

(** Objects the ray misses do not affect the resolver: a missed object put
    in front of the list only shifts the returned index by one, and a missed
    object appended at the end changes nothing. *)
Theorem get_closest_object_missed_object ray o objects :
  intersect o ray = None ->
  get_closest_object ray (o :: objects) =
    option_map (fun p => (fst p, S (snd p))) (get_closest_object ray objects) /\
  get_closest_object ray (objects ++ [o]) = get_closest_object ray objects.
Proof.
  intros Ho; split.
  - unfold get_closest_object, enumerate; cbn.
    unfold closest_step at 2; cbn; rewrite Ho; cbn.
    apply (fold_closest_shift ray objects 0 None).
  - rewrite get_closest_object_snoc; unfold closest_step; cbn; rewrite Ho.
    destruct (get_closest_object ray objects) as [[h i]|]; reflexivity.
Qed.

(** Witness: the ground plane is missed by a ray that points up from above it. *)
Lemma get_closest_object_missed_object_witness :
  get_closest_object {| origin := vec3 0 1 (-3); direction := vec3 0 1 0 |}
    (ground plane_material :: [ball sphere_material]) =
    option_map (fun p => (fst p, S (snd p)))
      (get_closest_object {| origin := vec3 0 1 (-3); direction := vec3 0 1 0 |}
         [ball sphere_material]) /\
  get_closest_object {| origin := vec3 0 1 (-3); direction := vec3 0 1 0 |}
    ([ball sphere_material] ++ [ground plane_material]) =
    get_closest_object {| origin := vec3 0 1 (-3); direction := vec3 0 1 0 |}
      [ball sphere_material].
Proof.
  apply get_closest_object_missed_object.
  unfold ground, intersect, vdot, vec3; cbn.
  destruct (Rge_dec (0 * 0 + 1 * 1 + 0 * 0) 0); [reflexivity|lra].
Defined.

(** Sphere intersection only depends on the origin relative to the centre:
    moving both by the same offset moves the hit point by it and leaves the
    normal and the distance unchanged. *)
Theorem intersect_sphere_translate center radius material o d t :
  intersect (Sphere (vadd center t) radius material) {| origin := vadd o t; direction := d |} =
  option_map (fun h => {| position := vadd (position h) t; normal := normal h;
                          distance := distance h |})
    (intersect (Sphere center radius material) {| origin := o; direction := d |}).
Proof.
  assert (Hoc : vsub (vadd o t) (vadd center t) = vsub o center)
    by (unfold vsub, vadd; apply vec3_ext; cbn; ring).
  unfold intersect; cbn [origin direction]; rewrite Hoc.
  destruct (Rlt_dec _ 0); [reflexivity|].
  destruct (Rle_dec _ 0); [reflexivity|].
  cbn; f_equal; f_equal; unfold vadd, vsub, vmul, splat; apply vec3_ext; cbn; ring.
Qed.

Lemma update_frames key_state dt st :
  frames_since_movement (update key_state dt st) =
    (if (key_state KeyW || key_state KeyS || key_state KeyA || key_state KeyD
         || key_state KeyQ || key_state KeyE)%bool
     then 0%nat else frames_since_movement st).
Proof.
  unfold update, move_key.
  destruct (key_state KeyW), (key_state KeyS), (key_state KeyA), (key_state KeyD),
    (key_state KeyQ), (key_state KeyE); reflexivity.
Qed.

Lemma handle_events_keeps_reset events st st1 :
  handle_events events st = Some st1 ->
  frames_since_movement st = 0%nat -> frames_since_movement st1 = 0%nat.
Proof.
  revert st; induction events as [|ev rest IH]; intros st He H0; cbn in He.
  - injection He as <-; exact H0.
  - destruct ev as [|w h|b px py|]; [discriminate| | |]; apply (IH _ He); [reflexivity|exact H0|exact H0].
Qed.

Lemma handle_events_resize events st st1 :
  handle_events events st = Some st1 ->
  ((exists w h, In (Resize w h) events) -> frames_since_movement st1 = 0%nat) /\
  ((forall w h, ~ In (Resize w h) events) -> st1 = st).
Proof.
  revert st; induction events as [|ev rest IH]; intros st He; cbn in He.
  - injection He as <-; split; [intros (w & h & [])|reflexivity].
  - destruct ev as [|w h|b px py|]; [discriminate| | |];
      destruct (IH _ He) as [IH1 IH2].
    + split.
      * intros _; apply (handle_events_keeps_reset _ _ _ He); reflexivity.
      * intros Hn; exfalso; apply (Hn w h); left; reflexivity.
    + split.
      * intros (w & h & [Hw|Hw]); [discriminate|]; apply IH1; exists w, h; exact Hw.
      * intros Hn; apply IH2; intros w h Hw; apply (Hn w h); right; exact Hw.
    + split.
      * intros (w & h & [Hw|Hw]); [discriminate|]; apply IH1; exists w, h; exact Hw.
      * intros Hn; apply IH2; intros w h Hw; apply (Hn w h); right; exact Hw.
Qed.

(** The frame counter of one main-loop iteration: after a resize or a held
    movement key the accumulation restarts ([frames_since_movement] ends at
    [1]); otherwise the counter goes up by one. *)
Theorem main_loop_iteration_frames events key_state dt estimates st st' :
  main_loop_iteration events key_state dt estimates st = Some st' ->
  ((exists w h, In (Resize w h) events) \/
   (key_state KeyW || key_state KeyS || key_state KeyA || key_state KeyD
    || key_state KeyQ || key_state KeyE)%bool = true ->
   frames_since_movement st' = 1%nat) /\
  ((forall w h, ~ In (Resize w h) events) ->
   (key_state KeyW || key_state KeyS || key_state KeyA || key_state KeyD
    || key_state KeyQ || key_state KeyE)%bool = false ->
   frames_since_movement st' = S (frames_since_movement st)).
Proof.
  intros Hi; unfold main_loop_iteration in Hi.
  destruct (handle_events events st) as [st1|] eqn:He; [|discriminate].
  injection Hi as <-.
  destruct (handle_events_resize _ _ _ He) as [Hr1 Hr2].
  unfold render; cbn [frames_since_movement].
  pose proof (update_frames key_state dt st1) as Hu.
  split.
  - intros [Hr|Hk]; f_equal; rewrite Hu.
    + destruct (_ || _)%bool; [reflexivity|apply Hr1; exact Hr].
    + rewrite Hk; reflexivity.
  - intros Hn Hk; f_equal; rewrite Hu, Hk, (Hr2 Hn); reflexivity.
Qed.

(** Witness: a resize to 2 x 1 with no key held restarts the accumulation. *)
Lemma main_loop_iteration_frames_witness :
  match main_loop_iteration [Resize 2 1] (fun _ => false) 0 [vzero; vzero] initial_state with
  | Some st' => frames_since_movement st' = 1%nat
  | None => False
  end.
Proof.
  destruct (main_loop_iteration [Resize 2 1] (fun _ => false) 0 [vzero; vzero] initial_state)
    as [st'|] eqn:Hi.
  - apply (proj1 (main_loop_iteration_frames _ _ _ _ _ _ Hi)).
    left; exists 2%nat, 1%nat; left; reflexivity.
  - discriminate.
Defined.
